(** * The request handler of [src/app.ts]

    The repository is one asynchronous function, [handler], which logs the
    event it receives and answers with a fixed JSON document; a failure
    raised inside its [try] block is logged on the error channel and
    answered with a second fixed document.

    The development has three layers:
    - [value]: the JavaScript values the handler touches (the event, a
      thrown value, the two object literals);
    - [JSON]: [JSON.stringify], restricted to those values;
    - [Eff]: a small monad for the two effects of the function, calls of
      the global [console] and exceptions, with [try_catch] and [async]. *)

From Stdlib Require Import String Ascii List ZArith Bool DecimalString Lia.
Import ListNotations.
Local Open Scope string_scope.
Local Set Warnings "-register-all".

(** ** JavaScript values *)

(** [event] has type [any], and [catch (error)] binds whatever was thrown,
    so both range over all values.  Numbers are the integer-valued ones.
    [VObj] is a plain object, its own enumerable properties in insertion
    order.  [VError m] is an object with [Error.prototype] on its prototype
    chain whose [message] property holds [m]: a string for an error built
    by [new Error(text)], any value once the property has been assigned.
    [VErrorAccessor t] is such an object whose [message] has been redefined
    as an accessor ([Object.defineProperty], which leaves it not
    enumerable) whose getter throws [t]: reading the property raises. *)
Inductive value : Type :=
| VUndefined
| VNull
| VBool (b : bool)
| VNum (n : Z)
| VStr (s : string)
| VArr (items : list value)
| VObj (props : list (string * value))
| VError (message : value)
| VErrorAccessor (thrown : value).

(** [error instanceof Error] *)
Definition instanceof_Error (error : value) : bool :=
  match error with
  | VError _ | VErrorAccessor _ => true
  | _ => false
  end.

(** ** JSON.stringify *)

Module JSON.

Definition dquote : string := String (ascii_of_nat 34) EmptyString.
Definition backslash : string := String (ascii_of_nat 92) EmptyString.

Definition hex_digit (n : nat) : ascii :=
  if Nat.ltb n 10 then ascii_of_nat (48 + n) else ascii_of_nat (87 + n).

(** The escape of one code unit, as QuoteJSONString does it. *)
Definition escape_char (ch : ascii) : string :=
  let n := nat_of_ascii ch in
  if Nat.eqb n 8 then backslash ++ "b"
  else if Nat.eqb n 9 then backslash ++ "t"
  else if Nat.eqb n 10 then backslash ++ "n"
  else if Nat.eqb n 12 then backslash ++ "f"
  else if Nat.eqb n 13 then backslash ++ "r"
  else if Nat.eqb n 34 then backslash ++ dquote
  else if Nat.eqb n 92 then backslash ++ backslash
  else if Nat.ltb n 32 then
    backslash ++ "u00"
      ++ String (hex_digit (n / 16)) (String (hex_digit (n mod 16)) EmptyString)
  else String ch EmptyString.

Fixpoint escape (s : string) : string :=
  match s with
  | EmptyString => EmptyString
  | String ch rest => escape_char ch ++ escape rest
  end.

Definition quote (s : string) : string := dquote ++ escape s ++ dquote.

Definition number_to_string (n : Z) : string :=
  NilZero.string_of_int (Z.to_int n).

(** [Array.prototype.join] on already serialised parts. *)
Fixpoint join (sep : string) (parts : list string) : string :=
  match parts with
  | [] => EmptyString
  | [p] => p
  | p :: rest => p ++ sep ++ join sep rest
  end.

(** SerializeJSONProperty: [None] is the [undefined] result.  A property
    whose value serialises to [undefined] is left out of an object and
    written [null] in an array.  The [message] of an error is not
    enumerable, data property or accessor, so an error serialises as an
    empty object and its [message] is not read. *)
Fixpoint serialize (v : value) : option string :=
  match v with
  | VUndefined => None
  | VNull => Some "null"
  | VBool b => Some (if b then "true" else "false")
  | VNum n => Some (number_to_string n)
  | VStr s => Some (quote s)
  | VArr items =>
      let element x :=
        match serialize x with Some s => s | None => "null" end in
      Some ("[" ++ join "," (map element items) ++ "]")
  | VObj props =>
      let members :=
        (fix members (ps : list (string * value)) : list string :=
           match ps with
           | [] => []
           | (k, x) :: rest =>
               match serialize x with
               | Some s => (quote k ++ ":" ++ s) :: members rest
               | None => members rest
               end
           end) in
      Some ("{" ++ join "," (members props) ++ "}")
  | VError _ | VErrorAccessor _ => Some "{}"
  end.

(** [JSON.stringify(v)] with one argument. *)
Definition stringify (v : value) : option string := serialize v.

End JSON.


(** ** Effects: the console and exceptions *)

(** The handler reaches the outside world through two methods of the
    global [console].  A call formats its argument and hands it to a sink
    the program does not own; formatting can raise (an argument carrying a
    throwing custom inspector, a console replaced by the host or by a test
    double).  A [Console] says, for each method and argument, whether the
    call completes ([None]) or raises ([Some thrown]). *)
Record Console : Type := {
  log_raises : value -> option value;
  error_raises : value -> option value
}.

Inductive Method : Type :=
| MLog     (* console.log: the informational channel *)
| MError.  (* console.error: the error channel *)

(** The console calls the program made, in order, each with its argument,
    whether the call completed or raised. *)
Definition Trace : Type := list (Method * value).

(** Does this call complete on this console? *)
Definition completes (c : Console) (call : Method * value) : bool :=
  match call with
  | (MLog, v) => match log_raises c v with None => true | Some _ => false end
  | (MError, v) => match error_raises c v with None => true | Some _ => false end
  end.

(** What reaches the diagnostic output on a console that formats its
    argument before it writes, as the console of Node does: a call that
    raises has written nothing, a call that completes has written its
    argument. *)
Definition written (c : Console) (calls : Trace) : Trace :=
  filter (completes c) calls.

(** How a statement list ends: normally with a value, or abruptly with a
    thrown value. *)
Inductive Completion (A : Type) : Type :=
| Normal (a : A)
| Throw (thrown : value).
Arguments Normal {A} a.
Arguments Throw {A} thrown.

(** [obj[name]] on a plain object. *)
Fixpoint lookup_prop (name : string) (props : list (string * value)) : option value :=
  match props with
  | [] => None
  | (k, x) :: rest => if String.eqb k name then Some x else lookup_prop name rest
  end.

Definition get_prop (name : string) (v : value) : option value :=
  match v with
  | VObj props => lookup_prop name props
  | _ => None
  end.

(** [error.message].  On an error with a data property the read gives the
    property; on one with a throwing accessor it raises what the getter
    throws.  On [undefined] and [null] a property read is a [TypeError]; on
    a plain object it is the property or [undefined]; the other values
    have no [message]. *)
Definition get_message (error : value) : Completion value :=
  match error with
  | VError m => Normal m
  | VErrorAccessor t => Throw t
  | VUndefined | VNull =>
      Throw (VError (VStr "Cannot read properties of undefined or null"))
  | VObj props =>
      Normal match lookup_prop "message" props with
             | Some m => m
             | None => VUndefined
             end
  | _ => Normal VUndefined
  end.

(** A computation reads the console it runs against and extends the trace.
    The trace survives an exception: a call made stays in it. *)
Definition Eff (A : Type) : Type := Console -> Trace -> Trace * Completion A.

(** An expression that calls nothing but may throw. *)
Definition eval {A} (r : Completion A) : Eff A := fun _ tr => (tr, r).

Definition ret {A} (a : A) : Eff A := fun _ tr => (tr, Normal a).

Definition bind {A B} (m : Eff A) (k : A -> Eff B) : Eff B :=
  fun c tr =>
    match m c tr with
    | (tr', Normal a) => k a c tr'
    | (tr', Throw e) => (tr', Throw e)
    end.

(** [try { m } catch (error) { h error }] *)
Definition try_catch {A} (m : Eff A) (h : value -> Eff A) : Eff A :=
  fun c tr =>
    match m c tr with
    | (tr', Normal a) => (tr', Normal a)
    | (tr', Throw e) => h e c tr'
    end.

Definition call_console (m : Method) (raises : Console -> value -> option value)
    (v : value) : Eff unit :=
  fun c tr =>
    ((tr ++ [(m, v)])%list,
     match raises c v with
     | None => Normal tt
     | Some e => Throw e
     end).

Definition console_log : value -> Eff unit := call_console MLog log_raises.
Definition console_error : value -> Eff unit := call_console MError error_raises.

Declare Scope eff_scope.
Delimit Scope eff_scope with eff.
Notation "m1 ;; m2" := (bind m1 (fun _ => m2))
  (at level 61, right associativity) : eff_scope.
Notation "x <- m1 ;; m2" := (bind m1 (fun x => m2))
  (at level 61, m1 at next level, right associativity) : eff_scope.

(** An [async] function hands its caller a promise: fulfilled with the
    returned value, rejected with whatever the body threw.  No [await]
    occurs in the handler, so the promise is settled when the call ends. *)
Inductive Promise (A : Type) : Type :=
| Fulfilled (result : A)
| Rejected (reason : value).
Arguments Fulfilled {A} result.
Arguments Rejected {A} reason.

Definition async {A} (m : Eff A) : Console -> Trace -> Trace * Promise A :=
  fun c tr =>
    match m c tr with
    | (tr', Normal a) => (tr', Fulfilled a)
    | (tr', Throw e) => (tr', Rejected e)
    end.

(** ** The handler *)

(** The object the handler returns.  [body] holds what [JSON.stringify]
    gave back, a string or [undefined] ([None]). *)
Record Response : Type := {
  statusCode : Z;
  body : option string
}.

Definition success_payload : value :=
  VObj [("status", VStr "success"); ("message", VStr "handler triggered")].

Definition failure_payload : value :=
  VObj [("status", VStr "failed"); ("message", VStr "Something went wrong")].

(** The statements between [try {] and [} catch]. *)
Definition try_block (event : value) : Eff Response :=
  (console_log event ;;
   ret {| statusCode := 200; body := JSON.stringify success_payload |})%eff.

(** [error instanceof Error ? error.message : "Something went wrong"]:
    the initialiser of [const errorMessage].  It throws when the read of
    [error.message] does. *)
Definition errorMessage (error : value) : Completion value :=
  if instanceof_Error error then get_message error
  else Normal (VStr "Something went wrong").

(** The statements of the [catch (error)] clause.  None of them is inside
    a [try]. *)
Definition catch_block (error : value) : Eff Response :=
  (message <- eval (errorMessage error) ;;
   console_error message ;;
   ret {| statusCode := 500; body := JSON.stringify failure_payload |})%eff.

Definition handler (event : value) : Console -> Trace -> Trace * Promise Response :=
  async (try_catch (try_block event) catch_block).

(** ** Which way a run goes *)

(** A run takes the success path when its [try] block completes and the
    failure path when the block throws; the failure path carries the thrown
    value, which the [catch] clause binds to [error]. *)
Inductive Path : Type :=
| SuccessPath
| FailurePath (error : value).

Definition path_taken (event : value) (c : Console) (tr : Trace) : Path :=
  match snd (try_block event c tr) with
  | Normal _ => SuccessPath
  | Throw e => FailurePath e
  end.

(** ** The two documents of the interface *)

(** The text of each body, written out character by character; [qt] puts a
    word between double quotes. *)
Definition qt (word : string) : string := JSON.dquote ++ word ++ JSON.dquote.

Definition success_body_text : string :=
  "{" ++ qt "status" ++ ":" ++ qt "success" ++ ","
      ++ qt "message" ++ ":" ++ qt "handler triggered" ++ "}".

Definition failure_body_text : string :=
  "{" ++ qt "status" ++ ":" ++ qt "failed" ++ ","
      ++ qt "message" ++ ":" ++ qt "Something went wrong" ++ "}".

Definition success_response : Response :=
  {| statusCode := 200; body := Some success_body_text |}.

Definition failure_response : Response :=
  {| statusCode := 500; body := Some failure_body_text |}.

(** ** Consoles used in the examples *)

(** A console on which every call completes. *)
Definition quiet_console : Console :=
  {| log_raises := fun _ => None; error_raises := fun _ => None |}.

(** [console.log] replaced by a function that throws [e], the way a test
    forces a failure; [console.error] completes. *)
Definition log_throws (e : value) : Console :=
  {| log_raises := fun _ => Some e; error_raises := fun _ => None |}.

(** A formatter that fails on objects: it raises an error whose [message]
    is the object it could not print. *)
Definition cannot_print_objects (v : value) : option value :=
  match v with
  | VObj _ => Some (VError v)
  | _ => None
  end.

(** Both methods share the failing formatter. *)
Definition picky_console : Console :=
  {| log_raises := cannot_print_objects; error_raises := cannot_print_objects |}.

(** Only [console.log] uses it. *)
Definition log_picky_console : Console :=
  {| log_raises := cannot_print_objects; error_raises := fun _ => None |}.

(** Every call raises: the sink is gone. *)
Definition broken_console : Console :=
  {| log_raises := fun _ => Some (VError (VStr "boom"));
     error_raises := fun _ => Some (VError (VStr "write failed")) |}.

(** [console.log] raises an error that wraps its argument as [message];
    [console.error] raises its own argument. *)
Definition echoing_console : Console :=
  {| log_raises := fun v => Some (VError v); error_raises := fun v => Some v |}.

(** [console.log] raises an error that wraps its argument as [message];
    [console.error] cannot print objects. *)
Definition wrapping_console : Console :=
  {| log_raises := fun v => Some (VError v); error_raises := cannot_print_objects |}.

Definition foo_bar : value := VObj [("foo", VStr "bar")].

(** An error whose [message] getter throws. *)
Definition getter_error : value := VErrorAccessor (VStr "getter failed").

(** * Properties *)

(** ** The serialised documents *)

Lemma stringify_success_payload :
  JSON.stringify success_payload = Some success_body_text.
Proof. reflexivity. Qed.

Lemma stringify_failure_payload :
  JSON.stringify failure_payload = Some failure_body_text.
Proof. reflexivity. Qed.

(** ** The message derived from a thrown value *)

(** Reading the message throws only on an error whose getter throws, and
    then it throws what the getter threw. *)
Lemma errorMessage_throws_iff (e t : value) :
  errorMessage e = Throw t <-> e = VErrorAccessor t.
Proof.
  split.
  - destruct e; cbn; intro H; try discriminate. injection H as ->. reflexivity.
  - intros ->. reflexivity.
Qed.

Lemma written_app (c : Console) (a b : Trace) :
  written c (a ++ b)%list = (written c a ++ written c b)%list.
Proof. apply filter_app. Qed.

(** ** One run, step by step *)

Section Runs.

Variable c : Console.
Variable tr : Trace.

(** The [try] block makes one console call and throws exactly what that
    call raised: building the response cannot fail. *)
Lemma try_block_run (event : value) :
  try_block event c tr =
  ((tr ++ [(MLog, event)])%list,
   match log_raises c event with
   | None => Normal success_response
   | Some e => Throw e
   end).
Proof.
  unfold try_block, bind, console_log, call_console, ret.
  destruct (log_raises c event); rewrite ?stringify_success_payload; reflexivity.
Qed.

(** The [catch] clause first derives the message, which can throw before
    any call is made, then makes one console call. *)
Lemma catch_block_run (error : value) :
  catch_block error c tr =
  match errorMessage error with
  | Throw t => (tr, Throw t)
  | Normal m =>
      ((tr ++ [(MError, m)])%list,
       match error_raises c m with
       | None => Normal failure_response
       | Some e' => Throw e'
       end)
  end.
Proof.
  unfold catch_block, bind, eval, console_error, call_console, ret.
  destruct (errorMessage error) as [m|t]; [|reflexivity].
  destruct (error_raises c m); rewrite ?stringify_failure_payload; reflexivity.
Qed.

Lemma try_block_throws_iff (event e : value) :
  snd (try_block event c tr) = Throw e <-> log_raises c event = Some e.
Proof.
  rewrite try_block_run; cbn [snd].
  destruct (log_raises c event) as [e0|]; split; intro H;
    try discriminate; congruence.
Qed.

Lemma try_block_normal_iff (event : value) :
  (forall e, snd (try_block event c tr) <> Throw e) <-> log_raises c event = None.
Proof.
  split.
  - intro H. destruct (log_raises c event) as [e|] eqn:E; [|reflexivity].
    exfalso. apply (H e). apply try_block_throws_iff. exact E.
  - intros H e Ht. apply try_block_throws_iff in Ht. congruence.
Qed.

Lemma path_taken_spec (event : value) :
  path_taken event c tr =
  match log_raises c event with
  | None => SuccessPath
  | Some e => FailurePath e
  end.
Proof.
  unfold path_taken. rewrite try_block_run; cbn [snd].
  destruct (log_raises c event); reflexivity.
Qed.

End Runs.

(** The whole handler, by cases on what the [try] block, the read of the
    message and the [console.error] call do. *)
Lemma handler_run (c : Console) (tr : Trace) (event : value) :
  handler event c tr =
  match log_raises c event with
  | None => ((tr ++ [(MLog, event)])%list, Fulfilled success_response)
  | Some e =>
      match errorMessage e with
      | Throw t => ((tr ++ [(MLog, event)])%list, Rejected t)
      | Normal m =>
          ((tr ++ [(MLog, event); (MError, m)])%list,
           match error_raises c m with
           | None => Fulfilled failure_response
           | Some e' => Rejected e'
           end)
      end
  end.
Proof.
  unfold handler, async, try_catch. rewrite try_block_run.
  destruct (log_raises c event) as [e|]; [|reflexivity].
  rewrite catch_block_run.
  destruct (errorMessage e) as [m|t]; [|reflexivity].
  rewrite <- app_assoc. cbn [app].
  destruct (error_raises c m); reflexivity.
Qed.

(** A failure of the [try] block hands control to the [catch] clause. *)
Lemma handler_enters_catch (c : Console) (tr tr' : Trace) (event e : value) :
  try_block event c tr = (tr', Throw e) ->
  handler event c tr = async (catch_block e) c tr'.
Proof.
  intro H. unfold handler, async at 1, try_catch. rewrite H. reflexivity.
Qed.

Ltac run_handler := rewrite ?handler_run in *; cbn [fst snd] in *.

(** ** Does the handler always answer? *)

(** C1, as stated, fails, in two ways.  On a console whose formatter cannot
    print objects, the event [{foo: "bar"}] makes [console.log] raise an
    error whose message is that object; the [catch] clause passes the
    message to [console.error], which raises again, outside any [try].
    And when the thrown error has a [message] getter that throws, the read
    of [error.message] in the [catch] clause raises, although
    [console.error] would complete.  Either way the promise is rejected and
    the caller gets no response. *)
Lemma handler_rejects_unprintable_event :
  handler foo_bar picky_console [] =
    ([(MLog, foo_bar); (MError, foo_bar)], Rejected (VError foo_bar))
  /\ ~ (exists r, snd (handler foo_bar picky_console []) = Fulfilled r)
  /\ handler VNull (log_throws getter_error) [] =
       ([(MLog, VNull)], Rejected (VStr "getter failed")).
Proof.
  split; [reflexivity|]. split; [|reflexivity].
  intros [r H]. cbv in H. discriminate H.
Qed.

(** C1, amended: for every event, the handler returns a response, one of
    the two fixed ones, provided that, whenever [console.log(event)]
    raised, the [catch] clause completes: the read of the thrown value's
    message and the [console.error] call on it both complete.  If either
    of the two raises, the handler's promise is rejected with what it
    raised. *)
Theorem handler_returns_response (c : Console) (tr : Trace) (event : value) :
  ((forall e, log_raises c event = Some e ->
              exists m, errorMessage e = Normal m /\ error_raises c m = None) ->
   exists r, snd (handler event c tr) = Fulfilled r
             /\ (r = success_response \/ r = failure_response))
  /\ (forall e e', log_raises c event = Some e ->
        (errorMessage e = Throw e'
         \/ exists m, errorMessage e = Normal m /\ error_raises c m = Some e') ->
        snd (handler event c tr) = Rejected e').
Proof.
  run_handler. split.
  - intro H. destruct (log_raises c event) as [e|] eqn:E; cbn [snd].
    + destruct (H e eq_refl) as [m [Hm He]]. rewrite Hm; cbn [snd]. rewrite He.
      exists failure_response. auto.
    + exists success_response. auto.
  - intros e e' E [Ht | [m [Hm He]]]; rewrite E.
    + rewrite Ht. reflexivity.
    + rewrite Hm; cbn [snd]. rewrite He. reflexivity.
Qed.

Lemma handler_returns_response_witness :
  (forall e, log_raises (log_throws (VError (VStr "boom"))) VNull = Some e ->
             exists m, errorMessage e = Normal m
                       /\ error_raises (log_throws (VError (VStr "boom"))) m = None)
  /\ exists r, snd (handler VNull (log_throws (VError (VStr "boom"))) []) = Fulfilled r
               /\ (r = success_response \/ r = failure_response).
Proof.
  assert (H : forall e, log_raises (log_throws (VError (VStr "boom"))) VNull = Some e ->
             exists m, errorMessage e = Normal m
                       /\ error_raises (log_throws (VError (VStr "boom"))) m = None).
  { intros e He. injection He as <-. exists (VStr "boom"). split; reflexivity. }
  split; [exact H|].
  exact (proj1 (handler_returns_response (log_throws (VError (VStr "boom"))) [] VNull) H).
Defined.
(** ** The success path *)

(** C2: in every invocation whose [try] block raises no failure, the
    handler's result is the record with [statusCode] 200 and [body] the
    JSON encoding of [{status: "success", message: "handler triggered"}],
    which is the text [{"status":"success","message":"handler triggered"}]. *)
Theorem handler_success_response (c : Console) (tr : Trace) (event : value) :
  (forall e, snd (try_block event c tr) <> Throw e) ->
  snd (handler event c tr) =
    Fulfilled {| statusCode := 200; body := JSON.stringify success_payload |}
  /\ JSON.stringify success_payload = Some success_body_text.
Proof.
  intro H. apply try_block_normal_iff in H.
  run_handler. rewrite H. split; reflexivity.
Qed.

Lemma handler_success_response_witness :
  (forall e, snd (try_block foo_bar quiet_console []) <> Throw e)
  /\ snd (handler foo_bar quiet_console []) =
       Fulfilled {| statusCode := 200; body := JSON.stringify success_payload |}
  /\ JSON.stringify success_payload = Some success_body_text.
Proof.
  split.
  - intros e H. discriminate H.
  - apply (handler_success_response quiet_console [] foo_bar).
    intros e H. discriminate H.
Defined.

(** ** The failure path *)

(** C3, as stated, fails, in two ways.  When the console is broken,
    [console.log] raises (a failure during processing), the [catch] clause
    runs, and its own [console.error] call raises too.  When the thrown
    error has a [message] getter that throws, the [catch] clause raises
    before it calls [console.error], which would have completed.  Either
    way the result is a rejected promise, not the 500 record. *)
Lemma failure_without_response :
  snd (try_block VNull broken_console []) = Throw (VError (VStr "boom"))
  /\ snd (handler VNull broken_console []) = Rejected (VError (VStr "write failed"))
  /\ snd (handler VNull broken_console []) <> Fulfilled failure_response
  /\ snd (try_block foo_bar (log_throws getter_error) []) = Throw getter_error
  /\ snd (handler foo_bar (log_throws getter_error) []) = Rejected (VStr "getter failed").
Proof.
  repeat split; try reflexivity.
  intro H. cbv in H. discriminate H.
Qed.

(** C3, amended: for every failure raised in the [try] block, whatever its
    message or type, if the read of its message and the [console.error]
    call of the [catch] clause both complete, the handler's result is the
    record with [statusCode] 500 and [body] the JSON encoding of
    [{status: "failed", message: "Something went wrong"}]. *)
Theorem handler_failure_response (c : Console) (tr : Trace) (event e m : value) :
  snd (try_block event c tr) = Throw e ->
  errorMessage e = Normal m ->
  error_raises c m = None ->
  snd (handler event c tr) =
    Fulfilled {| statusCode := 500; body := JSON.stringify failure_payload |}
  /\ JSON.stringify failure_payload = Some failure_body_text.
Proof.
  intros Ht Hm He. apply try_block_throws_iff in Ht.
  run_handler. rewrite Ht, Hm; cbn [snd]. rewrite He. split; reflexivity.
Qed.

Lemma handler_failure_response_witness :
  snd (try_block foo_bar (log_throws (VError (VStr "boom"))) []) = Throw (VError (VStr "boom"))
  /\ errorMessage (VError (VStr "boom")) = Normal (VStr "boom")
  /\ error_raises (log_throws (VError (VStr "boom"))) (VStr "boom") = None
  /\ snd (handler foo_bar (log_throws (VError (VStr "boom"))) []) =
       Fulfilled {| statusCode := 500; body := JSON.stringify failure_payload |}
  /\ JSON.stringify failure_payload = Some failure_body_text.
Proof.
  do 3 (split; [reflexivity|]).
  apply (handler_failure_response (log_throws (VError (VStr "boom"))) [] foo_bar
           (VError (VStr "boom")) (VStr "boom")); reflexivity.
Defined.

(** C4, as stated, fails: not every failure is answered with a response,
    and what the caller then sees can carry the error's text.  On a console
    whose [error] method raises its own argument, two failures whose texts
    are [secret-1] and [secret-2] reject the promise with [secret-1] and
    with [secret-2]: no response is returned, and the two outcomes the
    caller sees differ by the error text. *)
Lemma failure_text_reaches_caller :
  snd (try_block (VStr "secret-1") echoing_console []) = Throw (VError (VStr "secret-1"))
  /\ snd (try_block (VStr "secret-2") echoing_console []) = Throw (VError (VStr "secret-2"))
  /\ snd (handler (VStr "secret-1") echoing_console []) = Rejected (VStr "secret-1")
  /\ snd (handler (VStr "secret-2") echoing_console []) = Rejected (VStr "secret-2")
  /\ snd (handler (VStr "secret-1") echoing_console [])
     <> snd (handler (VStr "secret-2") echoing_console [])
  /\ ~ (exists r, snd (handler (VStr "secret-1") echoing_console []) = Fulfilled r).
Proof.
  do 4 (split; [reflexivity|]). split.
  - intro H. cbv in H. discriminate H.
  - intros [r H]. cbv in H. discriminate H.
Qed.

(** C4, amended: the two-run form holds for the failures that are
    answered.  Any two failures after which the handler returns a response
    are answered with the same response, the fixed failure response. *)
Theorem failure_response_same_for_any_two_failures
    (c1 c2 : Console) (tr1 tr2 : Trace) (ev1 ev2 e1 e2 : value) (r1 r2 : Response) :
  snd (try_block ev1 c1 tr1) = Throw e1 ->
  snd (try_block ev2 c2 tr2) = Throw e2 ->
  snd (handler ev1 c1 tr1) = Fulfilled r1 ->
  snd (handler ev2 c2 tr2) = Fulfilled r2 ->
  r1 = r2 /\ r1 = failure_response.
Proof.
  intros T1 T2 H1 H2.
  apply try_block_throws_iff in T1, T2.
  run_handler. rewrite T1 in H1. rewrite T2 in H2.
  destruct (errorMessage e1) as [m1|]; [|discriminate].
  destruct (errorMessage e2) as [m2|]; [|discriminate].
  cbn [snd] in *.
  destruct (error_raises c1 m1); [discriminate|].
  destruct (error_raises c2 m2); [discriminate|].
  injection H1 as <-. injection H2 as <-. split; reflexivity.
Qed.

Lemma failure_response_same_witness :
  snd (try_block VNull (log_throws (VError (VStr "boom"))) []) = Throw (VError (VStr "boom"))
  /\ snd (try_block foo_bar (log_throws (VStr "oops")) [(MLog, VNull)]) = Throw (VStr "oops")
  /\ snd (handler VNull (log_throws (VError (VStr "boom"))) []) = Fulfilled failure_response
  /\ snd (handler foo_bar (log_throws (VStr "oops")) [(MLog, VNull)]) = Fulfilled failure_response
  /\ failure_response = failure_response
  /\ failure_response = failure_response.
Proof.
  do 4 (split; [reflexivity|]).
  apply (failure_response_same_for_any_two_failures
           (log_throws (VError (VStr "boom"))) (log_throws (VStr "oops"))
           [] [(MLog, VNull)] VNull foo_bar
           (VError (VStr "boom")) (VStr "oops")
           failure_response failure_response); reflexivity.
Defined.

(** ** What the [catch] clause covers *)

(** C5, as stated, fails: the [catch] clause is itself outside the [try].
    On a broken console its [console.error] call raises, and that failure
    leaves the handler as the rejection of its promise. *)
Lemma catch_block_failure_escapes :
  snd (catch_block (VError (VStr "boom")) broken_console [(MLog, foo_bar)])
    = Throw (VError (VStr "write failed"))
  /\ handler foo_bar broken_console [] =
       ([(MLog, foo_bar); (MError, VStr "boom")], Rejected (VError (VStr "write failed"))).
Proof. split; reflexivity. Qed.

(** C5, amended: every failure raised inside the [try] block is caught:
    the handler goes on as its [catch] clause, run on the thrown value.  A
    failure raised inside the [catch] clause is not caught: the handler's
    promise is rejected with [e'] exactly when the clause throws [e']. *)
Theorem try_block_failures_caught
    (c : Console) (tr tr' : Trace) (event e : value) :
  try_block event c tr = (tr', Throw e) ->
  handler event c tr = async (catch_block e) c tr'
  /\ (forall e', snd (handler event c tr) = Rejected e'
                 <-> snd (catch_block e c tr') = Throw e').
Proof.
  intro H. pose proof (handler_enters_catch c tr tr' event e H) as Hc.
  split; [exact Hc|].
  intro e'. rewrite Hc. unfold async.
  destruct (catch_block e c tr') as [tr'' [r|e'']]; cbn [snd];
    split; intro Heq; try discriminate; congruence.
Qed.

Lemma try_block_failures_caught_witness :
  try_block VNull (log_throws (VStr "boom")) [] = ([(MLog, VNull)], Throw (VStr "boom"))
  /\ handler VNull (log_throws (VStr "boom")) [] =
       async (catch_block (VStr "boom")) (log_throws (VStr "boom")) [(MLog, VNull)]
  /\ (forall e', snd (handler VNull (log_throws (VStr "boom")) []) = Rejected e'
                 <-> snd (catch_block (VStr "boom") (log_throws (VStr "boom")) [(MLog, VNull)])
                     = Throw e').
Proof.
  split; [reflexivity|].
  apply (try_block_failures_caught (log_throws (VStr "boom")) [] [(MLog, VNull)]
           VNull (VStr "boom")).
  reflexivity.
Defined.

(** ** The diagnostic output *)

(** C6, as stated, fails on the failure path.  There the
    [console.log(event)] call is the call that raised: with [console.log]
    throwing [new Error("boom")] the run makes two calls, but only the
    second, the error message, reaches the output of a console that writes
    nothing when a call raises.  And when the thrown error has a [message]
    getter that throws, the run makes that one call and no other. *)
Lemma failure_path_not_two_writes :
  path_taken foo_bar (log_throws (VError (VStr "boom"))) [] = FailurePath (VError (VStr "boom"))
  /\ fst (handler foo_bar (log_throws (VError (VStr "boom"))) [])
     = [(MLog, foo_bar); (MError, VStr "boom")]
  /\ written (log_throws (VError (VStr "boom")))
       (fst (handler foo_bar (log_throws (VError (VStr "boom"))) []))
     = [(MError, VStr "boom")]
  /\ path_taken foo_bar (log_throws getter_error) [] = FailurePath getter_error
  /\ fst (handler foo_bar (log_throws getter_error) []) = [(MLog, foo_bar)]
  /\ written (log_throws getter_error) (fst (handler foo_bar (log_throws getter_error) []))
     = [].
Proof. repeat split. Qed.

(** C6, amended.  On the success path the handler makes one console call,
    [console.log(event)], which completes: the event is written once.  On
    the failure path [console.log(event)] is the call that raised; the
    handler then makes one more call, [console.error] with the derived
    message (the [message] of a thrown error, the string
    [Something went wrong] for any other thrown value), unless the read of
    the message throws, in which case it makes no further call.  It makes
    no other call.  So on a console that writes nothing when a call raises,
    the failure path writes the derived message if the [console.error] call
    completes, and nothing else. *)
Theorem handler_console_calls (c : Console) (tr : Trace) (event : value) :
  fst (handler event c tr) =
    (tr ++ match path_taken event c tr with
           | SuccessPath => [(MLog, event)]
           | FailurePath (VError m) => [(MLog, event); (MError, m)]
           | FailurePath (VErrorAccessor _) => [(MLog, event)]
           | FailurePath _ => [(MLog, event); (MError, VStr "Something went wrong")]
           end)%list
  /\ written c (fst (handler event c tr)) =
    (written c tr ++ match path_taken event c tr with
                     | SuccessPath => [(MLog, event)]
                     | FailurePath (VError m) => written c [(MError, m)]
                     | FailurePath (VErrorAccessor _) => []
                     | FailurePath _ => written c [(MError, VStr "Something went wrong")]
                     end)%list.
Proof.
  rewrite path_taken_spec, handler_run.
  destruct (log_raises c event) as [e|] eqn:E.
  - assert (Hlog : written c [(MLog, event)] = []).
    { unfold written; cbn. rewrite E. reflexivity. }
    destruct e; cbn [errorMessage instanceof_Error get_message fst];
      (split; [reflexivity|]);
      rewrite written_app;
      try (change [(MLog, event); (MError, ?m)]
             with ([(MLog, event)] ++ [(MError, m)])%list;
           rewrite written_app);
      rewrite Hlog; reflexivity.
  - cbn [fst]. split; [reflexivity|].
    rewrite written_app. unfold written at 2; cbn. rewrite E. reflexivity.
Qed.



(** C10: on the failure path, when the thrown value is not an [Error]
    instance, the value logged on the error channel is the fixed string
    [Something went wrong], which is also the [message] of the document
    sent in the failure response. *)
Theorem non_error_logs_fixed_message (c : Console) (tr : Trace) (event e : value) :
  snd (try_block event c tr) = Throw e ->
  instanceof_Error e = false ->
  fst (handler event c tr)
    = (tr ++ [(MLog, event); (MError, VStr "Something went wrong")])%list
  /\ get_prop "message" failure_payload = Some (VStr "Something went wrong")
  /\ (forall r, snd (handler event c tr) = Fulfilled r ->
        body r = JSON.stringify failure_payload).
Proof.
  intros Ht Hi. apply try_block_throws_iff in Ht.
  run_handler. rewrite Ht; cbn [fst snd]. unfold errorMessage. rewrite Hi.
  repeat split.
  intros r Hr. destruct (error_raises c _); [discriminate|].
  injection Hr as <-. reflexivity.
Qed.

Lemma non_error_logs_fixed_message_witness :
  snd (try_block VNull (log_throws (VStr "boom")) []) = Throw (VStr "boom")
  /\ instanceof_Error (VStr "boom") = false
  /\ fst (handler VNull (log_throws (VStr "boom")) [])
       = [(MLog, VNull); (MError, VStr "Something went wrong")]
  /\ get_prop "message" failure_payload = Some (VStr "Something went wrong")
  /\ (forall r, snd (handler VNull (log_throws (VStr "boom")) []) = Fulfilled r ->
        body r = JSON.stringify failure_payload).
Proof.
  split; [reflexivity|]. split; [reflexivity|].
  apply (non_error_logs_fixed_message (log_throws (VStr "boom")) [] VNull (VStr "boom"));
    reflexivity.
Defined.

(** ** The event and the response *)

(** C8, as stated, fails: the response depends on the event through the
    outcome of [console.log(event)].  On a console that cannot print
    objects, [null] is answered with the success response and
    [{foo: "bar"}] with the failure response.  And of two events on which
    [console.log] raises, one can be answered while the other is not: on a
    console whose [log] raises an error wrapping its argument and whose
    [error] cannot print objects, the string [hello] is answered with the
    failure response and [{foo: "bar"}] with a rejection. *)
Lemma response_depends_on_event :
  snd (handler VNull log_picky_console []) = Fulfilled success_response
  /\ snd (handler foo_bar log_picky_console []) = Fulfilled failure_response
  /\ snd (handler VNull log_picky_console []) <> snd (handler foo_bar log_picky_console [])
  /\ snd (handler (VStr "hello") wrapping_console []) = Fulfilled failure_response
  /\ snd (handler foo_bar wrapping_console []) = Rejected (VError foo_bar).
Proof.
  repeat split. intro H. cbv in H. discriminate H.
Qed.

(** C8, amended: for any two event values on which [console.log] behaves
    alike (it completes on both, or raises on both), the responses the
    handler returns are identical.  When it completes on both, the handler
    returns the success response for both, and each event shows only as
    its own entry in the diagnostic output. *)
Theorem response_same_for_like_events
    (c : Console) (tr1 tr2 : Trace) (ev1 ev2 : value) :
  (log_raises c ev1 = None <-> log_raises c ev2 = None) ->
  (forall r1 r2,
      snd (handler ev1 c tr1) = Fulfilled r1 ->
      snd (handler ev2 c tr2) = Fulfilled r2 ->
      r1 = r2)
  /\ (log_raises c ev1 = None ->
      snd (handler ev1 c tr1) = Fulfilled success_response
      /\ snd (handler ev2 c tr2) = Fulfilled success_response
      /\ fst (handler ev1 c tr1) = (tr1 ++ [(MLog, ev1)])%list
      /\ fst (handler ev2 c tr2) = (tr2 ++ [(MLog, ev2)])%list).
Proof.
  intros [H12 H21]. rewrite !handler_run. split.
  - intros r1 r2.
    destruct (log_raises c ev1) as [e1|], (log_raises c ev2) as [e2|].
    + destruct (errorMessage e1) as [m1|]; [|discriminate].
      destruct (errorMessage e2) as [m2|]; intro H1; [|discriminate].
      cbn [snd] in *.
      destruct (error_raises c m1); [discriminate|].
      destruct (error_raises c m2); [discriminate|].
      intro H2. injection H1 as <-. injection H2 as <-. reflexivity.
    + discriminate (H21 eq_refl).
    + discriminate (H12 eq_refl).
    + cbn [snd]. intros H1 H2. injection H1 as <-. injection H2 as <-. reflexivity.
  - intro H1. rewrite (H12 H1), H1. repeat split.
Qed.

Lemma response_same_for_like_events_witness :
  (log_raises log_picky_console VNull = None
   <-> log_raises log_picky_console (VStr "hello") = None)
  /\ (forall r1 r2,
         snd (handler VNull log_picky_console []) = Fulfilled r1 ->
         snd (handler (VStr "hello") log_picky_console []) = Fulfilled r2 ->
         r1 = r2)
  /\ (log_raises log_picky_console VNull = None ->
      snd (handler VNull log_picky_console []) = Fulfilled success_response
      /\ snd (handler (VStr "hello") log_picky_console []) = Fulfilled success_response
      /\ fst (handler VNull log_picky_console []) = [(MLog, VNull)]
      /\ fst (handler (VStr "hello") log_picky_console []) = [(MLog, VStr "hello")]).
Proof.
  assert (H : log_raises log_picky_console VNull = None
              <-> log_raises log_picky_console (VStr "hello") = None).
  { split; reflexivity. }
  split; [exact H|].
  exact (response_same_for_like_events log_picky_console [] [] VNull (VStr "hello") H).
Defined.

(** C9: on a console whose [log] method is total, the [try] block never
    throws, so the [catch] clause is never entered: every invocation takes
    the success path and returns the 200 response; no invocation returns a
    response with [statusCode] 500. *)
Theorem catch_unreachable_when_log_total (c : Console) :
  (forall v, log_raises c v = None) ->
  forall (event : value) (tr : Trace),
    (forall e, snd (try_block event c tr) <> Throw e)
    /\ path_taken event c tr = SuccessPath
    /\ handler event c tr = ((tr ++ [(MLog, event)])%list, Fulfilled success_response)
    /\ (forall r, snd (handler event c tr) = Fulfilled r -> statusCode r <> 500%Z).
Proof.
  intros Htotal event tr.
  split; [apply try_block_normal_iff, Htotal|].
  split; [rewrite path_taken_spec, Htotal; reflexivity|].
  rewrite handler_run, Htotal.
  split; [reflexivity|].
  intros r Hr. cbn [snd] in Hr. injection Hr as <-. discriminate.
Qed.

Lemma catch_unreachable_when_log_total_witness :
  (forall v, log_raises quiet_console v = None)
  /\ (forall e, snd (try_block foo_bar quiet_console []) <> Throw e)
  /\ path_taken foo_bar quiet_console [] = SuccessPath
  /\ handler foo_bar quiet_console [] = ([(MLog, foo_bar)], Fulfilled success_response)
  /\ (forall r, snd (handler foo_bar quiet_console []) = Fulfilled r -> statusCode r <> 500%Z).
Proof.
  split; [intro v; reflexivity|].
  apply (catch_unreachable_when_log_total quiet_console (fun v => eq_refl) foo_bar []).
Defined.

(** ** What a caller can read off a response *)

(** X1: the two fields of a returned response always agree.  The body is a
    string, never [undefined]; it is the JSON encoding of an object whose
    [status] is [success] when [statusCode] is 200 and [failed] otherwise,
    beside a [message] string; no other status code is ever returned. *)
Theorem response_status_agrees_with_body
    (c : Console) (tr : Trace) (event : value) (r : Response) :
  snd (handler event c tr) = Fulfilled r ->
  exists payload text,
    body r = JSON.stringify payload
    /\ body r = Some text
    /\ get_prop "status" payload
       = Some (VStr (if Z.eqb (statusCode r) 200 then "success" else "failed"))
    /\ (exists m, get_prop "message" payload = Some (VStr m))
    /\ (statusCode r = 200%Z \/ statusCode r = 500%Z).
Proof.
  intro H. rewrite handler_run in H.
  destruct (log_raises c event) as [e|]; cbn [snd] in H.
  - destruct (errorMessage e) as [m|]; [|discriminate].
    cbn [snd] in H. destruct (error_raises c m); [discriminate|].
    injection H as <-.
    exists failure_payload, failure_body_text.
    repeat split; try reflexivity; [eexists; reflexivity | right; reflexivity].
  - injection H as <-.
    exists success_payload, success_body_text.
    repeat split; try reflexivity; [eexists; reflexivity | left; reflexivity].
Qed.

Lemma response_status_agrees_with_body_witness :
  snd (handler foo_bar (log_throws (VStr "boom")) []) = Fulfilled failure_response
  /\ exists payload text,
       body failure_response = JSON.stringify payload
       /\ body failure_response = Some text
       /\ get_prop "status" payload
          = Some (VStr (if Z.eqb (statusCode failure_response) 200
                        then "success" else "failed"))
       /\ (exists m, get_prop "message" payload = Some (VStr m))
       /\ (statusCode failure_response = 200%Z \/ statusCode failure_response = 500%Z).
Proof.
  split; [reflexivity|].
  apply (response_status_agrees_with_body (log_throws (VStr "boom")) [] foo_bar
           failure_response).
  reflexivity.
Defined.

(** X2: the status code tells the caller which console calls were made
    and which of them completed.  A 200 response means the [try] block
    completed: the run made one call, [console.log(event)], and the event
    was written.  A 500 response means [console.log(event)] raised, so on a
    console that writes nothing when a call raises the event was not
    written; the run then made one [console.error] call, which completed
    and wrote the derived message: the [message] of the thrown error, or
    the string [Something went wrong] for any other thrown value. *)
Theorem response_matches_diagnostics
    (c : Console) (tr : Trace) (event : value) (r : Response) :
  snd (handler event c tr) = Fulfilled r ->
  (statusCode r = 200%Z
   /\ path_taken event c tr = SuccessPath
   /\ fst (handler event c tr) = (tr ++ [(MLog, event)])%list
   /\ written c (fst (handler event c tr)) = (written c tr ++ [(MLog, event)])%list)
  \/ (statusCode r = 500%Z
      /\ exists e m,
           path_taken event c tr = FailurePath e
           /\ errorMessage e = Normal m
           /\ m = match e with
                  | VError m' => m'
                  | _ => VStr "Something went wrong"
                  end
           /\ fst (handler event c tr) = (tr ++ [(MLog, event); (MError, m)])%list
           /\ written c (fst (handler event c tr)) = (written c tr ++ [(MError, m)])%list).
Proof.
  rewrite path_taken_spec, handler_run.
  destruct (log_raises c event) as [e|] eqn:E.
  - destruct (errorMessage e) as [m|t] eqn:Em; cbn [fst snd]; [|discriminate].
    destruct (error_raises c m) eqn:Ee; intro H; [discriminate|].
    right. injection H as <-. split; [reflexivity|].
    exists e, m. split; [reflexivity|]. split; [exact Em|].
    split; [|split; [reflexivity|]].
    + destruct e; cbn in Em; try discriminate; injection Em as <-; reflexivity.
    + change [(MLog, event); (MError, m)] with ([(MLog, event)] ++ [(MError, m)])%list.
      rewrite !written_app. unfold written at 2 3; cbn. rewrite E, Ee. reflexivity.
  - cbn [fst snd]. intro H. left. injection H as <-.
    do 3 (split; [reflexivity|]).
    rewrite written_app. unfold written at 2; cbn. rewrite E. reflexivity.
Qed.

Lemma response_matches_diagnostics_witness :
  snd (handler VNull (log_throws (VStr "boom")) [(MLog, foo_bar)]) = Fulfilled failure_response
  /\ ((statusCode failure_response = 200%Z
       /\ path_taken VNull (log_throws (VStr "boom")) [(MLog, foo_bar)] = SuccessPath
       /\ fst (handler VNull (log_throws (VStr "boom")) [(MLog, foo_bar)])
          = ([(MLog, foo_bar)] ++ [(MLog, VNull)])%list
       /\ written (log_throws (VStr "boom"))
            (fst (handler VNull (log_throws (VStr "boom")) [(MLog, foo_bar)]))
          = (written (log_throws (VStr "boom")) [(MLog, foo_bar)] ++ [(MLog, VNull)])%list)
      \/ (statusCode failure_response = 500%Z
          /\ exists e m,
               path_taken VNull (log_throws (VStr "boom")) [(MLog, foo_bar)] = FailurePath e
               /\ errorMessage e = Normal m
               /\ m = match e with
                      | VError m' => m'
                      | _ => VStr "Something went wrong"
                      end
               /\ fst (handler VNull (log_throws (VStr "boom")) [(MLog, foo_bar)])
                  = ([(MLog, foo_bar)] ++ [(MLog, VNull); (MError, m)])%list
               /\ written (log_throws (VStr "boom"))
                    (fst (handler VNull (log_throws (VStr "boom")) [(MLog, foo_bar)]))
                  = (written (log_throws (VStr "boom")) [(MLog, foo_bar)]
                     ++ [(MError, m)])%list)).
Proof.
  split; [reflexivity|].
  apply (response_matches_diagnostics (log_throws (VStr "boom")) [(MLog, foo_bar)] VNull
           failure_response).
  reflexivity.
Defined.

(** X3: when the caller sees a rejection.  The handler's promise is
    rejected exactly when [console.log(event)] raises and then the [catch]
    clause fails, in one of two ways: the thrown value is an error whose
    [message] getter throws, and the promise is rejected with what the
    getter threw after the one [console.log] call; or the [console.error]
    call on the derived message raises, and the promise is rejected with
    what it raised after both calls. *)
Theorem handler_rejects_iff (c : Console) (tr : Trace) (event reason : value) :
  snd (handler event c tr) = Rejected reason
  <-> exists e,
        log_raises c event = Some e
        /\ match e with
           | VErrorAccessor t =>
               reason = t
               /\ fst (handler event c tr) = (tr ++ [(MLog, event)])%list
           | VError m =>
               error_raises c m = Some reason
               /\ fst (handler event c tr) = (tr ++ [(MLog, event); (MError, m)])%list
           | _ =>
               error_raises c (VStr "Something went wrong") = Some reason
               /\ fst (handler event c tr)
                  = (tr ++ [(MLog, event); (MError, VStr "Something went wrong")])%list
           end.
Proof.
  rewrite handler_run.
  destruct (log_raises c event) as [e|]; split.
  - intro H. exists e. split; [reflexivity|].
    destruct e; cbn [errorMessage instanceof_Error get_message fst snd] in *;
      try (destruct (error_raises c _) as [e'|]; [|discriminate];
           injection H as ->; split; reflexivity).
    injection H as ->. split; reflexivity.
  - intros [e0 [H0 H1]]. injection H0 as <-.
    destruct e; cbn [errorMessage instanceof_Error get_message fst snd] in *;
      destruct H1 as [H1 _]; rewrite H1; reflexivity.
  - cbn [snd]. discriminate.
  - intros [e0 [H0 _]]. discriminate H0.
Qed.
